(** * Tuteliq MCP server: the HTTP session binding, the tool dispatcher,
      the voice-analysis rendering and the start-up credential check.

    The development follows the TypeScript sources:
    - [src/transport.ts]   ([createHttpHandler], [getTransportMode]),
    - [server.ts]          (the express binding of the [/mcp] route),
    - [src/index.ts] v2    (the [CallToolRequestSchema] dispatcher),
    - [src/index.ts] v3    ([createServer]),
    - [src/tools/media.ts] (the [analyze_voice] handler).

    The MCP SDK ([StreamableHTTPServerTransport], [McpServer]), the Tuteliq
    client, the file system and JavaScript numbers are not part of the
    repository: they appear as parameters, and every statement quantifies
    over what they may do. *)

From Stdlib Require Import Ascii.
From stdpp Require Import base option list strings gmap pretty.

Set Default Proof Using "Type".
Local Open Scope string_scope.

(** ** JavaScript truthiness of an optional string

    [req.headers['mcp-session-id']] and [process.env.X] are
    [string | undefined]; [!x] holds for [undefined] and for the empty
    string. *)
Definition truthy (x : option string) : bool :=
  match x with
  | Some s => negb (bool_decide (s = ""))
  | None => false
  end.

(** ** The session registry of [createHttpHandler] *)
Module Transport.

(** A [StreamableHTTPServerTransport] object is known by its identity (the
    handler compares transports with [===]); identities are allocated by
    [new], in order. *)
Abbreviation TransportRef := nat (only parsing).

(** [const transports = new Map<string, StreamableHTTPServerTransport>()].
    A JavaScript [Map] keeps its entries in insertion order, and the
    [onclose] callback searches [transports.entries()] in that order, so the
    map is kept as the list of its entries. *)
Definition Registry := list (string * TransportRef).

Fixpoint map_has (k : string) (m : Registry) : bool :=
  match m with
  | [] => false
  | (k', _) :: m' => if decide (k' = k) then true else map_has k m'
  end.

Fixpoint map_get (k : string) (m : Registry) : option TransportRef :=
  match m with
  | [] => None
  | (k', v) :: m' => if decide (k' = k) then Some v else map_get k m'
  end.

(** [Map.prototype.set]: an existing key keeps its place and takes the new
    value, a new key goes last. *)
Fixpoint map_set (k : string) (v : TransportRef) (m : Registry) : Registry :=
  match m with
  | [] => [(k, v)]
  | (k', v') :: m' =>
      if decide (k' = k) then (k', v) :: m' else (k', v') :: map_set k v m'
  end.

Fixpoint map_delete (k : string) (m : Registry) : Registry :=
  match m with
  | [] => []
  | (k', v') :: m' =>
      if decide (k' = k) then map_delete k m' else (k', v') :: map_delete k m'
  end.

(** [[...transports.entries()].find(([, t]) => t === transport)?.[0]] *)
Fixpoint find_id (t : TransportRef) (m : Registry) : option string :=
  match m with
  | [] => None
  | (k, v) :: m' => if decide (v = t) then Some k else find_id t m'
  end.

(** *** What the SDK transport does during one call

    [transport.handleRequest] and [server.connect] belong to the MCP SDK.
    During a call the transport may invoke the two callbacks the handler
    installed on it, may write the response, and its promise may reject. *)
Inductive Callback :=
  | SessionInitialized (id : string)   (* [onsessioninitialized(id)] *)
  | OnClose.                           (* [transport.onclose()] *)

Record SdkRun := mkSdkRun {
  callbacks : list Callback;   (* callbacks invoked, in order *)
  wrote : option nat;          (* status of the response it started, if any *)
  rejects : bool;              (* the returned promise rejects *)
}.

Record Env := mkEnv {
  connectRejects : bool;       (* [await server.connect(transport)] rejects *)
  sdk : SdkRun;                (* [await transport.handleRequest(...)] *)
}.

(** The two closures installed on the transport created by a POST. *)
Definition onsessioninitialized (t : TransportRef) (id : string)
    (m : Registry) : Registry :=
  map_set id t m.

Definition onclose (t : TransportRef) (m : Registry) : Registry :=
  match find_id t m with
  | Some id => if truthy (Some id) then map_delete id m else m
  | None => m
  end.

Definition fire (t : TransportRef) (m : Registry) (cb : Callback) : Registry :=
  match cb with
  | SessionInitialized id => onsessioninitialized t id m
  | OnClose => onclose t m
  end.

Definition fire_all (t : TransportRef) (cbs : list Callback) (m : Registry)
    : Registry :=
  foldl (fire t) m cbs.

(** *** Requests, responses, handler state *)
Inductive Method := POST | GET | DELETE | OtherMethod (name : string).

Record Request := mkRequest {
  method : Method;
  sessionHeader : option string;   (* [req.headers['mcp-session-id']] *)
}.

(** The express response: nothing sent yet, or headers sent with a status
    (and, for the handler's own replies, the [error] text of the body). *)
Inductive Response :=
  | NotSent
  | Sent (status : nat) (error : option string).

Definition headersSent (r : Response) : bool :=
  match r with NotSent => false | Sent _ _ => true end.

Definition sdk_response (r : SdkRun) : Response :=
  match wrote r with
  | Some st => Sent st None
  | None => NotSent
  end.

Inductive Completion := Fulfilled | Rejected.

Definition completion_of (r : SdkRun) : Completion :=
  if rejects r then Rejected else Fulfilled.

Record State := mkState {
  transports : Registry;
  nextRef : TransportRef;      (* identity of the next [new] transport *)
}.

Definition init : State := mkState [] 0.

Definition invalid_session : Response :=
  Sent 400 (Some "Invalid or missing session ID").

Definition method_not_allowed : Response :=
  Sent 405 (Some "Method not allowed").

(** [transports.has(sessionId)] and [transports.get(sessionId)] with
    [sessionId : string | undefined]: no entry has the key [undefined]. *)
Definition has_session (h : option string) (m : Registry) : bool :=
  match h with Some id => map_has id m | None => false end.

Definition get_session (h : option string) (m : Registry)
    : option TransportRef :=
  match h with Some id => map_get id m | None => None end.

Definition delete_session (h : option string) (m : Registry) : Registry :=
  match h with Some id => map_delete id m | None => m end.

(** The async function returned by [createHttpHandler], one invocation.
    [transports.get(sessionId)!] is [undefined] only when the key is absent;
    calling [handleRequest] on it would throw. *)
Definition httpHandler (req : Request) (env : Env) (s : State)
    : State * Response * Completion :=
  let sessionId := sessionHeader req in
  match method req with
  | POST =>
      let t := nextRef s in
      if connectRejects env then
        (mkState (transports s) (S t), NotSent, Rejected)
      else
        (mkState (fire_all t (callbacks (sdk env)) (transports s)) (S t),
         sdk_response (sdk env), completion_of (sdk env))
  | GET =>
      if negb (truthy sessionId) || negb (has_session sessionId (transports s))
      then (s, invalid_session, Fulfilled)
      else
        match get_session sessionId (transports s) with
        | Some t =>
            (mkState (fire_all t (callbacks (sdk env)) (transports s))
                     (nextRef s),
             sdk_response (sdk env), completion_of (sdk env))
        | None => (s, NotSent, Rejected)
        end
  | DELETE =>
      if truthy sessionId && has_session sessionId (transports s) then
        match get_session sessionId (transports s) with
        | Some t =>
            let m := fire_all t (callbacks (sdk env)) (transports s) in
            if rejects (sdk env) then
              (mkState m (nextRef s), sdk_response (sdk env), Rejected)
            else
              (mkState (delete_session sessionId m) (nextRef s),
               sdk_response (sdk env), Fulfilled)
        | None => (s, NotSent, Rejected)
        end
      else (s, invalid_session, Fulfilled)
  | OtherMethod _ => (s, method_not_allowed, Fulfilled)
  end.

(** [server.ts]: [app.all('/mcp', ...)] with its [.catch]; the last
    component is what [console.error] printed. *)
Definition internal_error : Response :=
  Sent 500 (Some "Internal server error").

Definition mcpRoute (req : Request) (env : Env) (s : State)
    : State * Response * list string :=
  match httpHandler req env s with
  | (s', res, Fulfilled) => (s', res, [])
  | (s', res, Rejected) =>
      if headersSent res then (s', res, ["MCP handler error:"])
      else (s', internal_error, ["MCP handler error:"])
  end.

(** *** Runs of the server

    Requests are handled one after the other; between two requests a
    transport may also invoke one of its callbacks on its own (a client
    that goes away closes its transport). *)
Inductive Event :=
  | Incoming (req : Request) (env : Env)
  | Spontaneous (t : TransportRef) (cb : Callback).

Definition step (s : State) (e : Event) : State :=
  match e with
  | Incoming req env => (mcpRoute req env s).1.1
  | Spontaneous t cb =>
      (* only a transport that was created can call back *)
      if decide (t < nextRef s) then mkState (fire t (transports s) cb) (nextRef s)
      else s
  end.

Definition run (tr : list Event) (s : State) : State :=
  foldl step s tr.

(** The identifier [id] is handed to [onsessioninitialized] during [e]. *)
Definition issues (id : string) (e : Event) : Prop :=
  match e with
  | Incoming _ env => SessionInitialized id ∈ callbacks (sdk env)
  | Spontaneous _ cb => cb = SessionInitialized id
  end.

(** No two entries of the registry carry the same identifier. *)
Definition unique_ids (m : Registry) : Prop := NoDup m.*1.

(** Every registered transport was created before the [n]-th [new]. *)
Definition refs_below (n : TransportRef) (m : Registry) : Prop :=
  ∀ id t, map_get id m = Some t → t < n.

Definition never_issued (id : string) (tr : list Event) : Prop :=
  ∀ e, e ∈ tr → ¬ issues id e.


(** A completed DELETE of [id] occurs in the run and [id] is not issued
    again after it. *)
Definition closed_in (id : string) (tr : list Event) : Prop :=
  ∃ tr1 env0 tr2,
    tr = (tr1 ++ Incoming (mkRequest DELETE (Some id)) env0 :: tr2)%list
    ∧ rejects (sdk env0) = false
    ∧ never_issued id tr2.

(** The invariant of a run. *)
Definition wf (s : State) : Prop :=
  unique_ids (transports s) ∧ refs_below (nextRef s) (transports s).

End Transport.

(** ** The text rendered for a voice analysis

    [src/tools/media.ts], handler of [analyze_voice], with the glyph tables
    of [src/formatters.ts]; and the [analyze_voice] case of the v2
    dispatcher in [src/index.ts], which is the same template over the glyph
    tables and glyph literals of that file. *)
Module Media.

Definition nl : string := String (ascii_of_nat 10) EmptyString.

(** *** Indexing an object literal

    [table[key]] on an object literal finds the literal's own properties
    and, failing that, the properties every object inherits from
    [Object.prototype]; a template literal prints a built-in function as
    V8 prints its source and the prototype object itself as
    ["[object Object]"]. *)
Definition native_function (name : string) : string :=
  "function " ++ name ++ "() { [native code] }".

Definition object_prototype (key : string) : option string :=
  if decide (key = "constructor") then Some (native_function "Object")
  else if decide (key = "__proto__") then Some "[object Object]"
  else if decide (key ∈ ["__defineGetter__"; "__defineSetter__";
                         "hasOwnProperty"; "__lookupGetter__";
                         "__lookupSetter__"; "isPrototypeOf";
                         "propertyIsEnumerable"; "toString"; "valueOf";
                         "toLocaleString"])
  then Some (native_function key)
  else None.

Fixpoint own_property (table : list (string * string)) (key : string)
    : option string :=
  match table with
  | [] => None
  | (k, v) :: table' => if decide (k = key) then Some v else own_property table' key
  end.

(** [table[key] || fallback] *)
Definition index_or (table : list (string * string)) (key fallback : string)
    : string :=
  match own_property table key with
  | Some v => if decide (v = "") then fallback else v
  | None =>
      match object_prototype key with
      | Some v => v
      | None => fallback
      end
  end.

(** *** The glyphs of the two versions of the template *)
Record Glyphs := mkGlyphs {
  severityEmoji : list (string * string);
  trendEmoji : list (string * string);
  clear_mark : string;      (* the check mark *)
  warning_mark : string;    (* the warning sign *)
  heading_mark : string;    (* the microphone of the heading *)
  dash : string;            (* between the two times of a segment *)
}.

(** [src/formatters.ts] and the literals of [src/tools/media.ts]. *)
Definition v3_glyphs : Glyphs := {|
  severityEmoji :=
    [("low", "🟡"); ("medium", "🟠"); ("high", "🔴"); ("critical", "⛔")];
  trendEmoji :=
    [("improving", "📈"); ("stable", "➡️"); ("worsening", "📉")];
  clear_mark := "✅";
  warning_mark := "⚠️";
  heading_mark := "🎙️";
  dash := "–";
|}.

(** [src/index.ts] (v2), lines 23-43 and 816-850: the characters of that
    file. *)
Definition v2_glyphs : Glyphs := {|
  severityEmoji :=
    [("low", "üü°"); ("medium", "üü†"); ("high", "üî¥");
     ("critical", "‚õî")];
  trendEmoji :=
    [("improving", "üìà"); ("stable", "‚û°Ô∏è");
     ("worsening", "üìâ")];
  clear_mark := "‚úÖ";
  warning_mark := "‚ö†Ô∏è";
  heading_mark := "üéôÔ∏è";
  dash := "‚Äì";
|}.

Section Rendering.

(** JavaScript numbers with the two operations the template uses. *)
Context {Num : Type}.
Variable glyphs : Glyphs.
Variable toFixed : nat → Num → string.   (* [x.toFixed(digits)] *)
Variable times100 : Num → Num.           (* [x * 100] *)

(** The fields of the client's [VoiceAnalysisResult] the handler reads. *)
Record TranscriptionSegment := mkSegment {
  seg_start : Num;
  seg_end : Num;
  seg_text : string;
}.

Record Transcription := mkTranscription {
  tr_text : string;
  tr_language : string;
  tr_duration : Num;
  tr_segments : list TranscriptionSegment;
}.

Record BullyingResult := mkBullying {
  is_bullying : bool;
  bullying_risk_score : Num;
}.

Record UnsafeResult := mkUnsafe {
  is_unsafe : bool;
  unsafe_risk_score : Num;
}.

Record GroomingResult := mkGrooming {
  grooming_risk : string;
  grooming_risk_score : Num;
}.

Record EmotionsResult := mkEmotions {
  dominant_emotions : list string;
  trend : string;
}.

Record Analysis := mkAnalysis {
  bullying : option BullyingResult;
  unsafe : option UnsafeResult;
  grooming : option GroomingResult;
  emotions : option EmotionsResult;
}.

Record VoiceAnalysisResult := mkVoice {
  transcription : Transcription;
  analysis : Analysis;
  overall_risk_score : Num;
  overall_severity : string;
}.

Definition percent (x : Num) : string := toFixed 0 (times100 x) ++ "%".

(** One line per segment: the two times in backquotes, then the text. *)
Definition segment_line (s : TranscriptionSegment) : string :=
  "`" ++ toFixed 1 (seg_start s) ++ "s" ++ dash glyphs
  ++ toFixed 1 (seg_end s) ++ "s` " ++ seg_text s.

(** [segments.slice(0, 20).map(...).join('\n')] *)
Definition segmentLines (segments : list TranscriptionSegment) : string :=
  String.concat nl (segment_line <$> take 20 segments).

(** [segments.length > 20 ? `\n_...and ${segments.length - 20} more
    segments_` : ''] *)
Definition more_segments (segments : list TranscriptionSegment) : string :=
  if decide (20 < length segments)
  then nl ++ "_...and " ++ pretty (length segments - 20) ++ " more segments_"
  else "".

Definition detected (b : bool) : string :=
  if b then warning_mark glyphs ++ " Detected"
  else clear_mark glyphs ++ " Clear".

Definition bullying_line (b : BullyingResult) : string :=
  "**Bullying:** " ++ detected (is_bullying b)
  ++ " (" ++ percent (bullying_risk_score b) ++ ")".

Definition unsafe_line (u : UnsafeResult) : string :=
  "**Unsafe:** " ++ detected (is_unsafe u)
  ++ " (" ++ percent (unsafe_risk_score u) ++ ")".

Definition grooming_line (g : GroomingResult) : string :=
  "**Grooming:** "
  ++ (if decide (grooming_risk g = "none") then clear_mark glyphs ++ " Clear"
      else warning_mark glyphs ++ " " ++ grooming_risk g)
  ++ " (" ++ percent (grooming_risk_score g) ++ ")".

Definition emotions_line (e : EmotionsResult) : string :=
  "**Emotions:** " ++ String.concat ", " (dominant_emotions e)
  ++ " (" ++ index_or (trendEmoji glyphs) (trend e) "" ++ " " ++ trend e
  ++ ")".

(** The four [if (result.analysis.x) analysisLines.push(...)]. *)
Definition analysisLines (a : Analysis) : list string :=
  (option_list (bullying_line <$> bullying a)
   ++ option_list (unsafe_line <$> unsafe a)
   ++ option_list (grooming_line <$> grooming a)
   ++ option_list (emotions_line <$> emotions a))%list.

(** The part of the template before the segment section. *)
Definition voice_intro (r : VoiceAnalysisResult) : string :=
  "## " ++ heading_mark glyphs ++ " Voice Analysis" ++ nl ++ nl
  ++ "**Overall Severity:** "
  ++ index_or (severityEmoji glyphs) (overall_severity r) (clear_mark glyphs)
  ++ " " ++ overall_severity r ++ nl
  ++ "**Overall Risk Score:** " ++ percent (overall_risk_score r) ++ nl
  ++ "**Language:** " ++ tr_language (transcription r) ++ nl
  ++ "**Duration:** " ++ toFixed 1 (tr_duration (transcription r)) ++ "s"
  ++ nl ++ nl
  ++ "### Transcript" ++ nl
  ++ tr_text (transcription r) ++ nl ++ nl.

(** The template literal assigned to [text] ([response] in v2). *)
Definition voice_text (r : VoiceAnalysisResult) : string :=
  voice_intro r
  ++ "### Timestamped Segments" ++ nl
  ++ segmentLines (tr_segments (transcription r))
  ++ more_segments (tr_segments (transcription r))
  ++ nl ++ nl
  ++ "### Analysis Results" ++ nl
  ++ String.concat nl (analysisLines (analysis r)).

End Rendering.
End Media.

(** ** The tool dispatcher of [src/index.ts] (v2) *)
Module Dispatch.

(** The names the [switch (name)] of the dispatcher has a [case] for. *)
Inductive Tool :=
  | detect_bullying | detect_grooming | detect_unsafe | analyze
  | analyze_emotions | get_action_plan | generate_report
  | analyze_voice | analyze_image
  | list_webhooks | create_webhook | update_webhook | delete_webhook
  | test_webhook | regenerate_webhook_secret
  | get_pricing | get_pricing_details
  | get_usage_history | get_usage_by_tool | get_usage_monthly
  | delete_account_data | export_account_data
  | record_consent | get_consent_status | withdraw_consent | rectify_data
  | get_audit_logs | log_breach | list_breaches | get_breach
  | update_breach_status.

Definition all_tools : list Tool :=
  [detect_bullying; detect_grooming; detect_unsafe; analyze;
   analyze_emotions; get_action_plan; generate_report;
   analyze_voice; analyze_image;
   list_webhooks; create_webhook; update_webhook; delete_webhook;
   test_webhook; regenerate_webhook_secret;
   get_pricing; get_pricing_details;
   get_usage_history; get_usage_by_tool; get_usage_monthly;
   delete_account_data; export_account_data;
   record_consent; get_consent_status; withdraw_consent; rectify_data;
   get_audit_logs; log_breach; list_breaches; get_breach;
   update_breach_status].

Definition tool_name (t : Tool) : string :=
  match t with
  | detect_bullying => "detect_bullying"
  | detect_grooming => "detect_grooming"
  | detect_unsafe => "detect_unsafe"
  | analyze => "analyze"
  | analyze_emotions => "analyze_emotions"
  | get_action_plan => "get_action_plan"
  | generate_report => "generate_report"
  | analyze_voice => "analyze_voice"
  | analyze_image => "analyze_image"
  | list_webhooks => "list_webhooks"
  | create_webhook => "create_webhook"
  | update_webhook => "update_webhook"
  | delete_webhook => "delete_webhook"
  | test_webhook => "test_webhook"
  | regenerate_webhook_secret => "regenerate_webhook_secret"
  | get_pricing => "get_pricing"
  | get_pricing_details => "get_pricing_details"
  | get_usage_history => "get_usage_history"
  | get_usage_by_tool => "get_usage_by_tool"
  | get_usage_monthly => "get_usage_monthly"
  | delete_account_data => "delete_account_data"
  | export_account_data => "export_account_data"
  | record_consent => "record_consent"
  | get_consent_status => "get_consent_status"
  | withdraw_consent => "withdraw_consent"
  | rectify_data => "rectify_data"
  | get_audit_logs => "get_audit_logs"
  | log_breach => "log_breach"
  | list_breaches => "list_breaches"
  | get_breach => "get_breach"
  | update_breach_status => "update_breach_status"
  end.

(** [switch (name)]: the first [case] whose label is [=== name], if any. *)
Definition switch_case (name : string) : option Tool :=
  list_find (λ t, tool_name t = name) all_tools ≫= λ it, Some it.2.

(** [inputSchema.required] of each entry of the [tools] array. *)
Definition required (t : Tool) : list string :=
  match t with
  | detect_bullying | detect_unsafe | analyze | analyze_emotions =>
      ["content"]
  | detect_grooming | generate_report => ["messages"]
  | get_action_plan => ["situation"]
  | analyze_voice | analyze_image => ["file_path"]
  | create_webhook => ["name"; "url"; "events"]
  | update_webhook | delete_webhook | test_webhook
  | regenerate_webhook_secret | get_breach => ["id"]
  | record_consent => ["consent_type"; "version"]
  | withdraw_consent => ["type"]
  | rectify_data => ["collection"; "document_id"; "fields"]
  | log_breach =>
      ["title"; "description"; "severity"; "affected_user_ids";
       "data_categories"; "reported_by"]
  | update_breach_status => ["id"; "status"]
  | list_webhooks | get_pricing | get_pricing_details
  | get_usage_history | get_usage_by_tool | get_usage_monthly
  | delete_account_data | export_account_data | get_consent_status
  | get_audit_logs | list_breaches => []
  end.

Section Dispatcher.

(** JavaScript numbers (IEEE doubles), Node [Buffer]s and the results of
    the client methods other than [analyzeVoice] are left abstract. *)
Context {Num Buffer Payload : Type}.
Variable num_truthy : Num → bool.         (* neither [0] nor [NaN] *)
Variable toFixed : nat → Num → string.    (* [x.toFixed(digits)] *)
Variable times100 : Num → Num.            (* [x * 100] *)

(** JavaScript values as they occur in tool arguments and client calls. *)
#[warnings="-register-all"]
Inductive JValue :=
  | JUndefined
  | JNull
  | JBool (b : bool)
  | JNum (n : Num)
  | JStr (s : string)
  | JBuf (b : Buffer)
  | JArr (items : list JValue)
  | JObj (fields : list (string * JValue)).

Definition js_truthy (v : JValue) : bool :=
  match v with
  | JUndefined | JNull => false
  | JBool b => b
  | JNum n => num_truthy n
  | JStr s => negb (bool_decide (s = ""))
  | JBuf _ | JArr _ | JObj _ => true
  end.

(** What a [throw] carries: an [Error] object with its message, or any
    other value. *)
Inductive Thrown :=
  | ErrorObject (message : string)
  | OtherValue (v : JValue).

(** Computations that return or throw. *)
Inductive Exc (A : Type) :=
  | Return (a : A)
  | Throw (e : Thrown).
Global Arguments Return {A} a.
Global Arguments Throw {A} e.

Global Instance exc_bind : MBind Exc := λ A B k m,
  match m with
  | Return a => k a
  | Throw e => Throw e
  end.

Fixpoint mapE {A B : Type} (f : A → Exc B) (l : list A) : Exc (list B) :=
  match l with
  | [] => Return []
  | a :: l' => b ← f a; bs ← mapE f l'; Return (b :: bs)
  end.

Fixpoint field (k : string) (fields : list (string * JValue)) : JValue :=
  match fields with
  | [] => JUndefined
  | (k', v) :: fields' => if decide (k' = k) then v else field k fields'
  end.

(** [v.k] for a property name [k] that no built-in prototype defines
    (V8's message for the [TypeError]). *)
Definition get_prop (v : JValue) (k : string) : Exc JValue :=
  match v with
  | JObj fields => Return (field k fields)
  | JUndefined =>
      Throw (ErrorObject
        ("Cannot read properties of undefined (reading '" ++ k ++ "')"))
  | JNull =>
      Throw (ErrorObject
        ("Cannot read properties of null (reading '" ++ k ++ "')"))
  | _ => Return JUndefined
  end.

(** [(v as Array<...>).map(f)] on a tool argument, the cast being erased
    at run time; [what] is the source text of the receiver, which V8
    quotes. Tool arguments come from JSON: they hold no buffer and no
    function. *)
Definition js_map (what : string) (v : JValue) (f : JValue → Exc JValue)
    : Exc JValue :=
  match v with
  | JArr items => items' ← mapE f items; Return (JArr items')
  | JUndefined =>
      Throw (ErrorObject "Cannot read properties of undefined (reading 'map')")
  | JNull =>
      Throw (ErrorObject "Cannot read properties of null (reading 'map')")
  | JObj fields =>
      (* a [map] property of a JSON object is never a function *)
      Throw (ErrorObject (what ++ ".map is not a function"))
  | _ => Throw (ErrorObject (what ++ ".map is not a function"))
  end.

(** The part of [s] after its last ['/']: [s.split('/').pop()]. *)
Fixpoint last_segment (s : string) : string :=
  match s with
  | EmptyString => EmptyString
  | String c s' =>
      if decide (c = "/"%char) then last_segment s'
      else
        if bool_decide (String.index 0 "/" s' = None) then s
        else last_segment s'
  end.

(** [filePath.split('/').pop() || filePath] *)
Definition filenameFromPath (filePath : JValue) : Exc JValue :=
  match filePath with
  | JStr s =>
      Return (JStr (if decide (last_segment s = "") then s else last_segment s))
  | JUndefined =>
      Throw (ErrorObject
        "Cannot read properties of undefined (reading 'split')")
  | JNull =>
      Throw (ErrorObject "Cannot read properties of null (reading 'split')")
  | _ => Throw (ErrorObject "filePath.split is not a function")
  end.

(** [x || fallback] *)
Definition js_or (x fallback : JValue) : JValue :=
  if js_truthy x then x else fallback.

(** *** The environment of the dispatcher *)

(** [request.params] of a [tools/call] request. *)
Record CallToolParams := mkParams {
  name : string;
  arguments : option (list (string * JValue));
}.

(** A call of a client method: the method (one per tool) with its
    arguments. *)
Record Call := mkCall {
  call_method : Tool;
  call_args : list JValue;
}.

(** The Tuteliq client: every call resolves to a result or throws. *)
Record Client := mkClient {
  analyzeVoice : Call → Exc (@Media.VoiceAnalysisResult Num);
  other_method : Call → Exc Payload;
}.

(** [fs.readFileSync] *)
Variable readFileSync : JValue → Exc Buffer.

(** The code of a [case] after its client call, which formats the result
    into the response text (it may throw on a result of unexpected shape);
    only that of [analyze_voice] is spelled out, see [Media.voice_text]
    and [Media.v2_glyphs]. *)
Variable render : Tool → list (string * JValue) → Payload → Exc string.

(** *** The cases of the [switch], up to the client call *)
Definition prepare (t : Tool) (args : list (string * JValue)) : Exc Call :=
  let arg k := field k args in
  match t with
  | detect_bullying | detect_unsafe =>
      Return (mkCall t
        [JObj [("content", arg "content"); ("context", arg "context")]])
  | detect_grooming =>
      messages ← js_map "args.messages" (arg "messages") (λ m,
        role ← get_prop m "role";
        content ← get_prop m "content";
        Return (JObj [("role", role); ("content", content)]));
      Return (mkCall t
        [JObj [("messages", messages); ("childAge", arg "childAge")]])
  | analyze =>
      Return (mkCall t
        [JObj [("content", arg "content"); ("include", arg "include")]])
  | analyze_emotions =>
      Return (mkCall t [JObj [("content", arg "content")]])
  | get_action_plan =>
      Return (mkCall t
        [JObj [("situation", arg "situation"); ("childAge", arg "childAge");
               ("audience", arg "audience"); ("severity", arg "severity")]])
  | generate_report =>
      messages ← js_map "args.messages" (arg "messages") (λ m,
        sender ← get_prop m "sender";
        content ← get_prop m "content";
        Return (JObj [("sender", sender); ("content", content)]));
      Return (mkCall t
        [JObj [("messages", messages); ("childAge", arg "childAge");
               ("incident",
                if js_truthy (arg "incidentType")
                then JObj [("type", arg "incidentType")]
                else JUndefined)]])
  | analyze_voice =>
      let filePath := arg "file_path" in
      buffer ← readFileSync filePath;
      filename ← filenameFromPath filePath;
      Return (mkCall t
        [JObj [("file", JBuf buffer); ("filename", filename);
               ("analysisType", js_or (arg "analysis_type") (JStr "all"));
               ("language", arg "language");
               ("childAge", arg "child_age")]])
  | analyze_image =>
      let filePath := arg "file_path" in
      buffer ← readFileSync filePath;
      filename ← filenameFromPath filePath;
      Return (mkCall t
        [JObj [("file", JBuf buffer); ("filename", filename);
               ("analysisType", js_or (arg "analysis_type") (JStr "all"))]])
  | list_webhooks | get_pricing | get_pricing_details | get_usage_monthly
  | delete_account_data | export_account_data =>
      Return (mkCall t [])
  | create_webhook =>
      Return (mkCall t
        [JObj [("name", arg "name"); ("url", arg "url");
               ("events", arg "events")]])
  | update_webhook =>
      Return (mkCall t
        [arg "id";
         JObj [("name", arg "name"); ("url", arg "url");
               ("events", arg "events"); ("isActive", arg "is_active")]])
  | delete_webhook | test_webhook | regenerate_webhook_secret | get_breach =>
      Return (mkCall t [arg "id"])
  | get_usage_history => Return (mkCall t [arg "days"])
  | get_usage_by_tool => Return (mkCall t [arg "date"])
  | record_consent =>
      Return (mkCall t
        [JObj [("consent_type", arg "consent_type");
               ("version", arg "version")]])
  | get_consent_status | withdraw_consent => Return (mkCall t [arg "type"])
  | rectify_data =>
      Return (mkCall t
        [JObj [("collection", arg "collection");
               ("document_id", arg "document_id");
               ("fields", arg "fields")]])
  | get_audit_logs =>
      Return (mkCall t
        [JObj [("action", arg "action"); ("limit", arg "limit")]])
  | log_breach =>
      Return (mkCall t
        [JObj [("title", arg "title"); ("description", arg "description");
               ("severity", arg "severity");
               ("affected_user_ids", arg "affected_user_ids");
               ("data_categories", arg "data_categories");
               ("reported_by", arg "reported_by")]])
  | list_breaches =>
      Return (mkCall t
        [JObj [("status", arg "status"); ("limit", arg "limit")]])
  | update_breach_status =>
      Return (mkCall t
        [arg "id";
         JObj [("status", arg "status");
               ("notification_status", arg "notification_status");
               ("notes", arg "notes")]])
  end.

(** The client call of a case and the formatting that follows it. *)
Definition invoke (client : Client) (t : Tool)
    (args : list (string * JValue)) (c : Call) : Exc string :=
  match t with
  | analyze_voice =>
      result ← analyzeVoice client c;
      Return (Media.voice_text Media.v2_glyphs toFixed times100 result)
  | _ =>
      result ← other_method client c;
      render t args result
  end.

(** A whole case: the client calls it made and how it ended. *)
Definition run_case (client : Client) (t : Tool)
    (args : list (string * JValue)) : list Call * Exc string :=
  match prepare t args with
  | Return c => ([c], invoke client t args c)
  | Throw e => ([], Throw e)
  end.

(** *** The request handler *)

(** [{ content: [{ type: 'text', text }], isError }]; a result without
    [isError] has [isError = false]. *)
Record ToolResult := mkResult {
  text : string;
  isError : bool;
}.

(** [error instanceof Error ? error.message : 'Unknown error'] *)
Definition catch_message (e : Thrown) : string :=
  match e with
  | ErrorObject message => message
  | OtherValue _ => "Unknown error"
  end.

(** [server.setRequestHandler(CallToolRequestSchema, ...)]: the client
    calls made while handling the request, and the result returned. *)
Definition callTool (client : Client) (params : CallToolParams)
    : list Call * ToolResult :=
  let args := default [] (arguments params) in
  match switch_case (name params) with
  | Some t =>
      match run_case client t args with
      | (calls, Return response) => (calls, mkResult response false)
      | (calls, Throw error) =>
          (calls, mkResult ("Error: " ++ catch_message error) true)
      end
  | None => ([], mkResult ("Unknown tool: " ++ name params) true)
  end.

(** A session: the [tools/call] requests it receives, each with what the
    client does while it is handled, answered through the handler. *)
Definition serve (requests : list (Client * CallToolParams))
    : list ToolResult :=
  (λ r, (callTool r.1 r.2).2) <$> requests.

(** *** The v3 handler of [analyze_voice] ([src/tools/media.ts])

    The SDK has validated the arguments against the zod schema before it
    calls the handler; a throw leaves the handler. The result carries the
    client's result ([structuredContent.result]) and the text. *)
Definition analyze_voice_handler (client : Client)
    (file_path : string) (analysis_type : option string)
    (child_age : option Num) (language : option string)
    : list Call * Exc (@Media.VoiceAnalysisResult Num * string) :=
  let opt {A} (f : A → JValue) (x : option A) := from_option f JUndefined x in
  match
    buffer ← readFileSync (JStr file_path);
    filename ← filenameFromPath (JStr file_path);
    Return (mkCall analyze_voice
      [JObj [("file", JBuf buffer); ("filename", filename);
             ("analysisType",
              js_or (opt JStr analysis_type) (JStr "all"));
             ("language", opt JStr language);
             ("childAge", opt JNum child_age)]])
  with
  | Return c =>
      ([c],
       result ← analyzeVoice client c;
       Return (result,
               Media.voice_text Media.v3_glyphs toFixed times100 result))
  | Throw e => ([], Throw e)
  end.

(** The values a call hands to the client: its positional arguments and
    the properties of its option objects. *)
Definition forwarded (c : Call) : list JValue :=
  flat_map (λ v, match v with JObj fields => fields.*2 | _ => [v] end)
    (call_args c).

(** The cases that do nothing but build the call from the arguments. *)
Definition passes_through (t : Tool) : bool :=
  match t with
  | detect_grooming | generate_report | analyze_voice | analyze_image => false
  | _ => true
  end.

(** The client call of case [t] on [c] throws [e]. *)
Definition client_throws (client : Client) (t : Tool) (c : Call)
    (e : Thrown) : Prop :=
  match t with
  | analyze_voice => analyzeVoice client c = Throw e
  | _ => other_method client c = Throw e
  end.

End Dispatcher.
End Dispatch.

(** ** Start-up: the credential check and the entry points

    [src/index.ts] v2 (top level), [src/index.ts] v3 ([createServer] and
    the top level), [src/transport.ts] ([getTransportMode]) and
    [server.ts]. *)
Module Startup.

(** What a start-up sequence does, in order. [process.exit] ends the
    process: nothing follows a [ProcessExit]. The sequence is followed up
    to the point where serving starts; the messages logged afterwards and
    the [.catch] of a stdio connection that fails later are not part of
    it. *)
Inductive Action :=
  | ConsoleError (message : string)
  | ProcessExit (code : nat)
  | NewClient (apiKey : string)             (* [new Tuteliq(apiKey)] *)
  | NewServer (name version : string)       (* [new Server] / [new McpServer] *)
  | SetRequestHandlers                      (* v2: list and call handlers *)
  | RegisterTools (group : string)          (* v3: [registerXTools] *)
  | ConnectStdio                            (* [server.connect(stdio)] *)
  | Listen (port : string).                 (* [app.listen(port)] *)

Definition serving (a : Action) : bool :=
  match a with ConnectStdio | Listen _ => true | _ => false end.

Definition exited (actions : list Action) : bool :=
  match last actions with Some (ProcessExit _) => true | _ => false end.

(** Sequencing of two pieces of start-up code. *)
Definition and_then (first rest : list Action) : list Action :=
  if exited first then first else (first ++ rest)%list.

Definition api_key_required : list Action :=
  [ConsoleError "Error: TUTELIQ_API_KEY environment variable is required";
   ProcessExit 1].

(** v2, top level of [src/index.ts]. *)
Definition index_v2 (env : gmap string string) : list Action :=
  let apiKey := env !! "TUTELIQ_API_KEY" in
  if negb (truthy apiKey) then api_key_required
  else
    [NewClient (default "" apiKey); NewServer "tuteliq-mcp" "2.1.0";
     SetRequestHandlers; ConnectStdio].

(** v3, [createServer]. *)
Definition createServer (env : gmap string string) : list Action :=
  let apiKey := env !! "TUTELIQ_API_KEY" in
  if negb (truthy apiKey) then api_key_required
  else
    [NewClient (default "" apiKey); NewServer "tuteliq-mcp" "3.0.0";
     RegisterTools "detection"; RegisterTools "fraud"; RegisterTools "media";
     RegisterTools "analysis"; RegisterTools "admin"].

(** [String.prototype.toLowerCase] on the ASCII letters; the only strings
    whose lower case is ["stdio"] consist of ASCII letters. *)
Definition lower (c : ascii) : ascii :=
  let n := nat_of_ascii c in
  if decide (65 ≤ n ∧ n ≤ 90)%nat then ascii_of_nat (n + 32) else c.

Fixpoint toLowerCase (s : string) : string :=
  match s with
  | EmptyString => EmptyString
  | String c s' => String (lower c) (toLowerCase s')
  end.

Inductive TransportMode := http | stdio.

Definition getTransportMode (env : gmap string string) : TransportMode :=
  match toLowerCase <$> env !! "TUTELIQ_MCP_TRANSPORT" with
  | Some "stdio" => stdio
  | _ => http
  end.

(** v3, top level of [src/index.ts]. *)
Definition index_v3 (env : gmap string string) : list Action :=
  match getTransportMode env with
  | stdio => and_then (createServer env) [ConnectStdio]
  | http => []
  end.

(** [server.ts]: importing [./src/index.js] runs its top level first. *)
Definition server_ts (env : gmap string string) : list Action :=
  let port :=
    if truthy (env !! "PORT") then default "" (env !! "PORT") else "3001" in
  and_then (index_v3 env) (and_then (createServer env) [Listen port]).

End Startup.

(** ** Sample data for the examples *)
Module Examples.
Import Transport Dispatch.

(** Sample requests and SDK behaviours used by the examples below. *)
Definition ex_post : Request := mkRequest POST None.

(** the transport initialises a session under [id] and answers 200 *)
Definition ex_initialise (id : string) : Env :=
  mkEnv false (mkSdkRun [SessionInitialized id] (Some 200) false).

Definition ex_open (id : string) : Event := Incoming ex_post (ex_initialise id).

(** the transport answers with [status] and calls nothing back *)
Definition ex_answers (status : nat) : Env :=
  mkEnv false (mkSdkRun [] (Some status) false).

(** the transport closes itself and answers 200 *)
Definition ex_closes : Env :=
  mkEnv false (mkSdkRun [OnClose] (Some 200) false).

Definition ex_close (id : string) : Event :=
  Incoming (mkRequest DELETE (Some id)) ex_closes.

(** the transport call rejects before anything is sent or called back *)
Definition ex_fails : Env := mkEnv false (mkSdkRun [] None true).

(** The dispatcher with numbers as naturals, buffers and client results
    as strings. *)
Fixpoint ex_zeros (digits : nat) : string :=
  match digits with
  | 0 => ""
  | S d => "0" ++ ex_zeros d
  end.

(** [toFixed] on a natural number: [(22).toFixed(1)] is ['22.0']. *)
Definition ex_toFixed (digits n : nat) : string :=
  pretty n ++ (if decide (digits = 0) then "" else "." ++ ex_zeros digits).
Definition ex_truthy (n : nat) : bool := negb (bool_decide (n = 0)).
Definition ex_times100 (n : nat) : nat := n * 100.

Definition ex_readFileSync (path : @JValue nat string)
    : @Exc nat string string :=
  match path with
  | JStr p => Return ("bytes of " ++ p)
  | _ => Throw (ErrorObject "The path argument must be of type string")
  end.

Definition ex_render (t : Tool) (args : list (string * @JValue nat string))
    (p : string) : @Exc nat string string :=
  Return p.

Definition ex_segment (i : nat) : Media.TranscriptionSegment :=
  Media.mkSegment i (S i) ("segment " ++ pretty i).

Definition ex_voice : Media.VoiceAnalysisResult :=
  Media.mkVoice
    (Media.mkTranscription "hello" "en" 22 (ex_segment <$> seq 0 22))
    (Media.mkAnalysis None None None None) 0 "low".

(** The text the v2 dispatcher returns for a transcription of 22 segments,
    line by line. *)
Definition ex_voice_text : string :=
  String.concat (String "010"%char EmptyString)
    ["## üéôÔ∏è Voice Analysis";
     "";
     "**Overall Severity:** üü° low";
     "**Overall Risk Score:** 0%";
     "**Language:** en";
     "**Duration:** 22.0s";
     "";
     "### Transcript";
     "hello";
     "";
     "### Timestamped Segments";
     "`0.0s‚Äì1.0s` segment 0";
     "`1.0s‚Äì2.0s` segment 1";
     "`2.0s‚Äì3.0s` segment 2";
     "`3.0s‚Äì4.0s` segment 3";
     "`4.0s‚Äì5.0s` segment 4";
     "`5.0s‚Äì6.0s` segment 5";
     "`6.0s‚Äì7.0s` segment 6";
     "`7.0s‚Äì8.0s` segment 7";
     "`8.0s‚Äì9.0s` segment 8";
     "`9.0s‚Äì10.0s` segment 9";
     "`10.0s‚Äì11.0s` segment 10";
     "`11.0s‚Äì12.0s` segment 11";
     "`12.0s‚Äì13.0s` segment 12";
     "`13.0s‚Äì14.0s` segment 13";
     "`14.0s‚Äì15.0s` segment 14";
     "`15.0s‚Äì16.0s` segment 15";
     "`16.0s‚Äì17.0s` segment 16";
     "`17.0s‚Äì18.0s` segment 17";
     "`18.0s‚Äì19.0s` segment 18";
     "`19.0s‚Äì20.0s` segment 19";
     "_...and 2 more segments_";
     "";
     "### Analysis Results";
     ""].

(** a client whose calls all succeed *)
Definition ex_client : @Client nat string string :=
  mkClient (λ _, Return ex_voice) (λ _, Return "formatted result").

(** a client whose calls all fail *)
Definition ex_failing_client : @Client nat string string :=
  mkClient (λ _, Throw (ErrorObject "Rate limit exceeded"))
           (λ _, Throw (ErrorObject "Rate limit exceeded")).

Definition ex_callTool :=
  Dispatch.callTool ex_truthy ex_toFixed ex_times100 ex_readFileSync ex_render.

End Examples.

(** ** Sessions whose identifiers come from the generator

    [createHttpHandler] constructs every transport with
    [sessionIdGenerator: () => crypto.randomUUID()]. The SDK transport
    that initialises a session while it handles the POST it was created
    for calls that generator once and hands the result to
    [onsessioninitialized]; a transport that closes calls [onclose]. *)
Module Sessions.
Import Transport.

Definition is_post (m : Method) : bool :=
  match m with POST => true | _ => false end.

(** What the SDK does with one request, short of the identifier. *)
Record SdkPlan := mkPlan {
  plan_connect_fails : bool;   (* [server.connect(transport)] rejects *)
  plan_initialises : bool;     (* a POST initialises the session *)
  plan_closes : bool;          (* the transport closes *)
  plan_answers : option nat;   (* status of the response it starts *)
  plan_fails : bool;           (* [handleRequest] rejects *)
}.

Inductive SessionEvent :=
  | Handled (req : Request) (p : SdkPlan)
  | TransportClosed (t : TransportRef).   (* [onclose] between requests *)

(** The handler state with the number of calls of the generator so far. *)
Record Server := mkServer {
  http : State;
  generated : nat;
}.

Section Generator.

(** The successive results of [crypto.randomUUID()]. *)
Variable randomUUID : nat → string.

(** [sessionIdGenerator: () => crypto.randomUUID()], at its [n]-th call. *)
Definition sessionIdGenerator (n : nat) : string := randomUUID n.

Definition plan_callbacks (n : nat) (req : Request) (p : SdkPlan)
    : list Callback :=
  ((if is_post (method req) && plan_initialises p
    then [SessionInitialized (sessionIdGenerator n)] else [])
   ++ (if plan_closes p then [OnClose] else []))%list.

Definition plan_env (n : nat) (req : Request) (p : SdkPlan) : Env :=
  mkEnv (plan_connect_fails p)
        (mkSdkRun (plan_callbacks n req p) (plan_answers p) (plan_fails p)).

(** The generator is called when a POST whose transport got connected
    initialises its session. *)
Definition generator_calls (req : Request) (p : SdkPlan) : nat :=
  if is_post (method req) && negb (plan_connect_fails p)
     && plan_initialises p
  then 1 else 0.

Definition serve_step (g : Server) (e : SessionEvent) : Server :=
  match e with
  | Handled req p =>
      mkServer (step (http g) (Incoming req (plan_env (generated g) req p)))
               (generated g + generator_calls req p)
  | TransportClosed t =>
      mkServer (step (http g) (Spontaneous t OnClose)) (generated g)
  end.

Definition serve_run (tr : list SessionEvent) : Server :=
  foldl serve_step (mkServer init 0) tr.

(** The identifiers issued so far, in the order of their issue. *)
Definition issued (g : Server) : list string :=
  sessionIdGenerator <$> seq 0 (generated g).

(** What a run keeps true of the registry: identifiers and transports are
    each registered once, every registered transport exists, and every
    registered identifier was issued. *)
Definition registry_inv (n : nat) (ids : list string) (m : Registry) : Prop :=
  unique_ids m
  ∧ refs_below n m
  ∧ NoDup m.*2
  ∧ ∀ id, id ∉ ids → map_has id m = false.

(** The invariant of a run. *)
Definition server_inv (g : Server) : Prop :=
  registry_inv (nextRef (http g)) (issued g) (transports (http g)).

End Generator.
End Sessions.

(** ** Sample generators and SDK behaviours *)
Module SessionExamples.
Import Transport Sessions.

(** a generator that never repeats itself *)
Definition ex_randomUUID (n : nat) : string := "session-" ++ pretty n.

(** a generator that returns the same value at every call *)
Definition ex_stuck_randomUUID (n : nat) : string := "session-0".

(** the SDK initialises a session and answers 200 *)
Definition ex_initialising : SdkPlan := mkPlan false true false (Some 200) false.

(** the SDK initialises a session, answers 200 and closes the transport *)
Definition ex_initialising_then_closing : SdkPlan :=
  mkPlan false true true (Some 200) false.

End SessionExamples.

(** * Facts on the session registry *)
Module TransportFacts.
Import Transport.

(** ** Properties of the registry operations *)

Lemma map_has_elem (k : string) (m : Registry) :
  map_has k m = true ↔ k ∈ m.*1.
Proof.
  induction m as [|[k' v] m IH]; csimpl.
  - split; [done|]. by intros ?%elem_of_nil.
  - rewrite elem_of_cons. case_decide; subst.
    + split; [by left|done].
    + rewrite IH. split; [by right|]. intros [?|?]; [congruence|done].
Qed.

Lemma map_has_false (k : string) (m : Registry) :
  map_has k m = false ↔ k ∉ m.*1.
Proof.
  rewrite <- map_has_elem. by destruct (map_has k m).
Qed.

Lemma map_get_has (k : string) (m : Registry) :
  map_has k m = true ↔ is_Some (map_get k m).
Proof.
  induction m as [|[k' v] m IH]; simpl.
  - split; [done|]. by intros [? ?].
  - case_decide; [|done]. split; [eauto|done].
Qed.

Lemma map_get_has_None (k : string) (m : Registry) (t : TransportRef) :
  map_has k m = false → map_get k m = Some t → False.
Proof.
  intros Hk Hg. assert (map_has k m = true) as Hk'.
  { apply map_get_has. by exists t. }
  congruence.
Qed.

Lemma map_get_set_eq (k : string) (v : TransportRef) (m : Registry) :
  map_get k (map_set k v m) = Some v.
Proof.
  induction m as [|[k' v'] m IH]; simpl.
  - by rewrite decide_True.
  - case_decide; simpl; [by rewrite decide_True|by rewrite decide_False].
Qed.

Lemma map_get_set_ne (k k' : string) (v : TransportRef) (m : Registry) :
  k ≠ k' → map_get k' (map_set k v m) = map_get k' m.
Proof.
  intros Hne. induction m as [|[k0 v0] m IH]; simpl.
  - by rewrite decide_False.
  - destruct (decide (k0 = k)) as [->|]; simpl.
    + by rewrite !decide_False.
    + case_decide; [done|apply IH].
Qed.

Lemma map_set_keys (k : string) (v : TransportRef) (m : Registry) :
  (map_set k v m).*1 = if map_has k m then m.*1 else (m.*1 ++ [k])%list.
Proof.
  induction m as [|[k' v'] m IH]; csimpl; [done|].
  case_decide; csimpl; [by subst|].
  rewrite IH. by destruct (map_has k m).
Qed.

Lemma map_delete_keys (k : string) (m : Registry) :
  (map_delete k m).*1 = filter (λ k', k' ≠ k) m.*1.
Proof.
  induction m as [|[k' v'] m IH]; csimpl; [done|].
  rewrite filter_cons. csimpl. case_decide; subst.
  - rewrite decide_False; [done|]. by intros H; apply H.
  - rewrite decide_True; [|done]. csimpl. by rewrite IH.
Qed.

Lemma map_has_delete_eq (k : string) (m : Registry) :
  map_has k (map_delete k m) = false.
Proof.
  apply map_has_false. rewrite map_delete_keys.
  intros [H _]%list_elem_of_filter. by apply H.
Qed.

Lemma map_has_delete_ne (k k' : string) (m : Registry) :
  k ≠ k' → map_has k' (map_delete k m) = map_has k' m.
Proof.
  intros Hne. induction m as [|[k0 v0] m IH]; simpl; [done|].
  destruct (decide (k0 = k)) as [->|]; simpl.
  - by rewrite decide_False.
  - by rewrite IH.
Qed.

Lemma map_has_delete_absent (k k' : string) (m : Registry) :
  map_has k' m = false → map_has k' (map_delete k m) = false.
Proof.
  destruct (decide (k = k')) as [->|Hne].
  - intros _. apply map_has_delete_eq.
  - by rewrite map_has_delete_ne.
Qed.

Lemma map_has_set (k k' : string) (v : TransportRef) (m : Registry) :
  map_has k' (map_set k v m) = bool_decide (k = k') || map_has k' m.
Proof.
  induction m as [|[k0 v0] m IH]; simpl.
  - rewrite orb_false_r. by case_decide; case_bool_decide.
  - destruct (decide (k0 = k)) as [->|Hne]; simpl.
    + destruct (decide (k = k')) as [->|].
      * by rewrite orb_true_r.
      * by rewrite bool_decide_eq_false_2.
    + destruct (decide (k0 = k')) as [->|]; [by rewrite orb_true_r|apply IH].
Qed.

Lemma unique_ids_set (k : string) (v : TransportRef) (m : Registry) :
  unique_ids m → unique_ids (map_set k v m).
Proof.
  unfold unique_ids. intros Hm. rewrite map_set_keys.
  destruct (map_has k m) eqn:Hk; [done|].
  apply NoDup_app. split_and!; [done| |apply NoDup_singleton].
  intros x Hx ->%list_elem_of_singleton.
  by apply map_has_false in Hk.
Qed.

Lemma unique_ids_delete (k : string) (m : Registry) :
  unique_ids m → unique_ids (map_delete k m).
Proof.
  unfold unique_ids. intros Hm. rewrite map_delete_keys.
  by apply NoDup_filter.
Qed.

Lemma unique_ids_onclose (t : TransportRef) (m : Registry) :
  unique_ids m → unique_ids (onclose t m).
Proof.
  intros Hm. unfold onclose.
  destruct (find_id t m) as [id|]; [|done].
  destruct (truthy (Some id)); [by apply unique_ids_delete|done].
Qed.

Lemma unique_ids_fire (t : TransportRef) (cb : Callback) (m : Registry) :
  unique_ids m → unique_ids (fire t m cb).
Proof.
  destruct cb; simpl; [apply unique_ids_set|apply unique_ids_onclose].
Qed.

Lemma unique_ids_fire_all (t : TransportRef) (cbs : list Callback)
    (m : Registry) :
  unique_ids m → unique_ids (fire_all t cbs m).
Proof.
  unfold fire_all. revert m.
  induction cbs as [|cb cbs IH]; intros m Hm; simpl; [done|].
  by apply IH, unique_ids_fire.
Qed.

(** *** Registered transports are existing transports *)

Lemma map_get_delete (k k' : string) (m : Registry) (t : TransportRef) :
  map_get k' (map_delete k m) = Some t → map_get k' m = Some t.
Proof.
  induction m as [|[k0 v0] m IH]; simpl; [done|].
  destruct (decide (k0 = k)) as [->|]; simpl.
  - intros H. case_decide; subst.
    + apply map_get_has_None in H; [done|apply map_has_delete_eq].
    + by apply IH.
  - case_decide; [done|apply IH].
Qed.

Lemma refs_below_set (n : TransportRef) (k : string) (t : TransportRef)
    (m : Registry) :
  t < n → refs_below n m → refs_below n (map_set k t m).
Proof.
  intros Ht Hm id t'. destruct (decide (k = id)) as [->|Hne].
  - rewrite map_get_set_eq. by intros [= <-].
  - rewrite map_get_set_ne; [apply Hm|done].
Qed.

Lemma refs_below_delete (n : TransportRef) (k : string) (m : Registry) :
  refs_below n m → refs_below n (map_delete k m).
Proof. intros Hm id t H. eapply Hm, map_get_delete, H. Qed.

Lemma refs_below_fire (n t : TransportRef) (cb : Callback) (m : Registry) :
  t < n → refs_below n m → refs_below n (fire t m cb).
Proof.
  intros Ht Hm. destruct cb as [id|]; simpl.
  - by apply refs_below_set.
  - unfold onclose. destruct (find_id t m) as [id|]; [|done].
    destruct (truthy (Some id)); [by apply refs_below_delete|done].
Qed.

Lemma refs_below_fire_all (n t : TransportRef) (cbs : list Callback)
    (m : Registry) :
  t < n → refs_below n m → refs_below n (fire_all t cbs m).
Proof.
  intros Ht. unfold fire_all. revert m.
  induction cbs as [|cb cbs IH]; intros m Hm; simpl; [done|].
  by apply IH, refs_below_fire.
Qed.

Lemma refs_below_mono (n n' : TransportRef) (m : Registry) :
  (n ≤ n')%nat → refs_below n m → refs_below n' m.
Proof. intros Hn Hm id t H. specialize (Hm id t H). lia. Qed.

(** *** The invariant of a run *)
Lemma wf_init : wf init.
Proof. split; [apply NoDup_nil_2|]. by intros id t. Qed.

Lemma wf_httpHandler (req : Request) (env : Env) (s : State) :
  wf s → wf (httpHandler req env s).1.1.
Proof.
  intros [Hu Hr]. unfold httpHandler.
  destruct (method req); simpl.
  - destruct (connectRejects env); simpl.
    + split; [done|]. simpl. eapply refs_below_mono; [|done]. lia.
    + split; simpl.
      * by apply unique_ids_fire_all.
      * apply refs_below_fire_all; [lia|].
        eapply refs_below_mono; [|done]. lia.
  - destruct (negb _ || negb _); [done|].
    destruct (get_session _ _) as [t|] eqn:Ht; [|done].
    split; simpl.
    + by apply unique_ids_fire_all.
    + apply refs_below_fire_all; [|done].
      destruct (sessionHeader req) as [id|]; [|done]. by eapply Hr.
  - destruct (truthy _ && _); [|done].
    destruct (get_session _ _) as [t|] eqn:Ht; [|done].
    assert (t < nextRef s) as Hlt.
    { destruct (sessionHeader req) as [id|]; [|done]. by eapply Hr. }
    destruct (rejects (sdk env)); split; simpl.
    + by apply unique_ids_fire_all.
    + by apply refs_below_fire_all.
    + destruct (sessionHeader req); simpl;
        [apply unique_ids_delete|]; by apply unique_ids_fire_all.
    + destruct (sessionHeader req); simpl;
        [apply refs_below_delete|]; by apply refs_below_fire_all.
  - done.
Qed.

Lemma mcpRoute_state (req : Request) (env : Env) (s : State) :
  (mcpRoute req env s).1.1 = (httpHandler req env s).1.1.
Proof.
  unfold mcpRoute. destruct (httpHandler req env s) as [[s' res] []]; [done|].
  by destruct (headersSent res).
Qed.

Lemma wf_step (s : State) (e : Event) : wf s → wf (step s e).
Proof.
  intros Hs. destruct e as [req env|t cb]; simpl.
  - rewrite mcpRoute_state. by apply wf_httpHandler.
  - case_decide; [|done]. destruct Hs as [Hu Hr]. split; simpl.
    + by apply unique_ids_fire.
    + by apply refs_below_fire.
Qed.

Lemma wf_run (tr : list Event) (s : State) : wf s → wf (run tr s).
Proof.
  unfold run. revert s.
  induction tr as [|e tr IH]; intros s Hs; simpl; [done|].
  by apply IH, wf_step.
Qed.

Lemma run_app (tr1 tr2 : list Event) (s : State) :
  run (tr1 ++ tr2)%list s = run tr2 (run tr1 s).
Proof. unfold run. apply foldl_app. Qed.

(** *** An identifier that is not issued stays unknown *)

Lemma absent_fire (t : TransportRef) (cb : Callback) (id : string)
    (m : Registry) :
  cb ≠ SessionInitialized id → map_has id m = false →
  map_has id (fire t m cb) = false.
Proof.
  intros Hcb Hm. destruct cb as [id'|]; simpl.
  - unfold onsessioninitialized. rewrite map_has_set, Hm.
    rewrite bool_decide_eq_false_2; [done|]. congruence.
  - unfold onclose. destruct (find_id t m) as [id'|]; [|done].
    destruct (truthy (Some id')); [by apply map_has_delete_absent|done].
Qed.

Lemma absent_fire_all (t : TransportRef) (cbs : list Callback) (id : string)
    (m : Registry) :
  SessionInitialized id ∉ cbs → map_has id m = false →
  map_has id (fire_all t cbs m) = false.
Proof.
  unfold fire_all. revert m.
  induction cbs as [|cb cbs IH]; intros m Hcbs Hm; simpl; [done|].
  apply not_elem_of_cons in Hcbs as [Hcb Hcbs].
  apply IH; [done|]. by apply absent_fire.
Qed.

Lemma absent_httpHandler (req : Request) (env : Env) (s : State)
    (id : string) :
  SessionInitialized id ∉ callbacks (sdk env) →
  map_has id (transports s) = false →
  map_has id (transports (httpHandler req env s).1.1) = false.
Proof.
  intros Hcbs Hm. unfold httpHandler. destruct (method req); simpl.
  - destruct (connectRejects env); simpl; [done|].
    by apply absent_fire_all.
  - destruct (negb _ || negb _); [done|].
    destruct (get_session _ _); simpl; [by apply absent_fire_all|done].
  - destruct (truthy _ && _); [|done].
    destruct (get_session _ _); simpl; [|done].
    destruct (rejects (sdk env)); simpl; [by apply absent_fire_all|].
    destruct (sessionHeader req); simpl;
      [apply map_has_delete_absent|]; by apply absent_fire_all.
  - done.
Qed.

Lemma absent_step (e : Event) (s : State) (id : string) :
  ¬ issues id e → map_has id (transports s) = false →
  map_has id (transports (step s e)) = false.
Proof.
  intros He Hm. destruct e as [req env|t cb]; simpl in *.
  - rewrite mcpRoute_state. by apply absent_httpHandler.
  - case_decide; [|done]. simpl. by apply absent_fire.
Qed.

Lemma absent_run (tr : list Event) (s : State) (id : string) :
  never_issued id tr → map_has id (transports s) = false →
  map_has id (transports (run tr s)) = false.
Proof.
  unfold run, never_issued. revert s.
  induction tr as [|e tr IH]; intros s Htr Hm; simpl; [done|].
  apply IH.
  - intros e' He'. apply Htr. by right.
  - apply absent_step; [|done]. apply Htr. by left.
Qed.

(** *** GET and DELETE on an identifier the registry does not hold *)

Lemma get_rejected (id : string) (env : Env) (s : State) :
  id = "" ∨ map_has id (transports s) = false →
  mcpRoute (mkRequest GET (Some id)) env s = (s, invalid_session, []).
Proof.
  intros H. unfold mcpRoute, httpHandler. simpl.
  destruct H as [-> | ->]; [done|]. by rewrite orb_true_r.
Qed.

Lemma delete_rejected (id : string) (env : Env) (s : State) :
  id = "" ∨ map_has id (transports s) = false →
  mcpRoute (mkRequest DELETE (Some id)) env s = (s, invalid_session, []).
Proof.
  intros H. unfold mcpRoute, httpHandler. simpl.
  destruct H as [-> | ->]; [done|]. by rewrite andb_false_r.
Qed.

Lemma delete_removes (id : string) (env : Env) (s : State) :
  id ≠ "" → rejects (sdk env) = false →
  map_has id
    (transports (httpHandler (mkRequest DELETE (Some id)) env s).1.1) = false.
Proof.
  intros Hid Hrej. unfold httpHandler. simpl.
  rewrite bool_decide_eq_false_2 by done. simpl.
  destruct (map_has id (transports s)) eqn:Hhas; [|done].
  destruct (map_get id (transports s)) as [t|] eqn:Hget.
  - rewrite Hrej. simpl. apply map_has_delete_eq.
  - apply map_get_has in Hhas as [t Ht]. congruence.
Qed.

Lemma unknown_after_run (tr : list Event) (id : string) :
  never_issued id tr ∨ closed_in id tr →
  id = "" ∨ map_has id (transports (run tr init)) = false.
Proof.
  intros [Hn|(tr1 & env0 & tr2 & -> & Hrej & Hn)].
  - right. by apply absent_run.
  - destruct (decide (id = "")) as [->|Hid]; [by left|right].
    rewrite run_app. change (run (?e :: tr2) ?s) with (run tr2 (step s e)).
    apply absent_run; [done|]. simpl. rewrite mcpRoute_state.
    by apply delete_removes.
Qed.

End TransportFacts.

(** * Facts on the dispatcher *)
Module DispatchFacts.
Import Dispatch.

Lemma switch_case_name (t : Tool) : switch_case (tool_name t) = Some t.
Proof. by destruct t. Qed.

Lemma switch_case_Some (n : string) (t : Tool) :
  switch_case n = Some t → tool_name t = n.
Proof.
  unfold switch_case. destruct (list_find _ _) as [[i t']|] eqn:H; [|done].
  simpl. intros [= <-]. by apply list_find_Some in H as (_ & H & _).
Qed.

Lemma switch_case_None (n : string) :
  switch_case n = None ↔ n ∉ tool_name <$> all_tools.
Proof.
  unfold switch_case. split.
  - destruct (list_find _ _) as [[i t']|] eqn:H; [done|]. intros _.
    apply list_find_None in H. intros (t & -> & Ht)%list_elem_of_fmap.
    by eapply Forall_forall in H.
  - intros Hn. destruct (list_find _ _) as [[i t']|] eqn:H; [|done].
    apply list_find_Some in H as (Hi & <- & _). destruct Hn.
    apply list_elem_of_fmap. exists t'. split; [done|].
    by eapply list_elem_of_lookup_2.
Qed.

Section Facts.
Context {Num Buffer Payload : Type}.
Variable num_truthy : Num → bool.
Variable toFixed : nat → Num → string.
Variable times100 : Num → Num.
Variable readFileSync : @JValue Num Buffer → @Exc Num Buffer Buffer.
Variable render :
  Tool → list (string * @JValue Num Buffer) → Payload → @Exc Num Buffer string.

Local Abbreviation callTool :=
  (callTool num_truthy toFixed times100 readFileSync render).
Local Abbreviation serve :=
  (serve num_truthy toFixed times100 readFileSync render).
Local Abbreviation prepare := (prepare num_truthy readFileSync).
Local Abbreviation invoke := (invoke toFixed times100 render).

(** The handler answers a request for a known tool with what its case
    does, a throw being turned into an error result. *)
Lemma callTool_known (client : Client) (params : CallToolParams) (t : Tool) :
  switch_case (name params) = Some t →
  callTool client params
  = match prepare t (default [] (arguments params)) with
    | Return c =>
        ([c],
         match invoke client t (default [] (arguments params)) c with
         | Return response => mkResult response false
         | Throw e => mkResult ("Error: " ++ catch_message e) true
         end)
    | Throw e => ([], mkResult ("Error: " ++ catch_message e) true)
    end.
Proof.
  intros Ht. unfold Dispatch.callTool, run_case. rewrite Ht.
  destruct (prepare _ _) as [c|e]; [|done].
  by destruct (invoke _ _ _ _).
Qed.

Lemma serve_app (l1 l2 : list (Client * CallToolParams)) :
  serve (l1 ++ l2)%list = (serve l1 ++ serve l2)%list.
Proof. unfold Dispatch.serve. apply fmap_app. Qed.

Lemma invoke_throws (client : Client) (t : Tool)
    (args : list (string * JValue)) (c : Call) (e : Thrown) :
  client_throws client t c e → invoke client t args c = Throw e.
Proof.
  unfold client_throws, Dispatch.invoke.
  destruct t; intros ->; reflexivity.
Qed.

End Facts.
End DispatchFacts.

(** * Facts on the voice rendering *)
Module MediaFacts.
Import Media.

Section Facts.
Context {Num : Type}.
Variable glyphs : Glyphs.
Variable toFixed : nat → Num → string.
Variable times100 : Num → Num.

(** The lines of the segment section are those of the first 20 segments,
    each with its two times and its text. *)
Lemma segmentLines_take (segments : list (@TranscriptionSegment Num)) :
  segmentLines glyphs toFixed segments
  = String.concat nl
      ((λ s, "`" ++ toFixed 1 (seg_start s) ++ "s" ++ dash glyphs
             ++ toFixed 1 (seg_end s) ++ "s` " ++ seg_text s)
       <$> take 20 segments).
Proof. reflexivity. Qed.

End Facts.
End MediaFacts.

(** * The definitions on sample inputs *)
Module ExampleRuns.
Import Transport Dispatch Startup Examples.

(** [Map.set] on a present key keeps the entry in place. *)
Example map_set_in_place :
  map_set "a" 7 [("a", 0); ("b", 1)] = [("a", 7); ("b", 1)].
Proof. reflexivity. Qed.

(** [onclose] removes the first entry that holds the transport. *)
Example onclose_first_entry :
  onclose 1 [("a", 0); ("b", 1); ("c", 1)] = [("a", 0); ("c", 1)].
Proof. reflexivity. Qed.

(** Two sessions opened, the first one closed. *)
Example open_open_close :
  run [ex_open "a"; ex_open "b"; ex_close "a"] init = mkState [("b", 1)] 2.
Proof. reflexivity. Qed.

(** A GET on a live session is handed to its transport. *)
Example get_live_session :
  mcpRoute (mkRequest GET (Some "a")) (ex_answers 200)
    (run [ex_open "a"] init)
  = (mkState [("a", 0)] 1, Sent 200 None, []).
Proof. reflexivity. Qed.

Example put_not_allowed :
  mcpRoute (mkRequest (OtherMethod "PUT") (Some "a")) (ex_answers 200) init
  = (init, method_not_allowed, []).
Proof. reflexivity. Qed.

Example last_segment_of_path : last_segment "/tmp/a/call.mp3" = "call.mp3".
Proof. reflexivity. Qed.

Example last_segment_of_directory : last_segment "/tmp/a/" = "".
Proof. reflexivity. Qed.

Example filename_of_directory :
  @filenameFromPath nat string (JStr "/tmp/a/") = Return (JStr "/tmp/a/").
Proof. reflexivity. Qed.

(** [detect_grooming] without [messages] throws before the client call. *)
Example detect_grooming_without_messages :
  ex_callTool ex_client (mkParams "detect_grooming" None)
  = ([], mkResult
           "Error: Cannot read properties of undefined (reading 'map')" true).
Proof. reflexivity. Qed.

(** [analyze_voice] without [file_path] fails in [readFileSync]. *)
Example analyze_voice_without_path :
  ex_callTool ex_client (mkParams "analyze_voice" (Some []))
  = ([], mkResult "Error: The path argument must be of type string" true).
Proof. reflexivity. Qed.

Example note_for_22_segments :
  Media.more_segments (Media.tr_segments (Media.transcription ex_voice))
  = Media.nl ++ "_...and 2 more segments_".
Proof. reflexivity. Qed.

Example upper_case_mode : toLowerCase "STDIO" = "stdio".
Proof. reflexivity. Qed.

Example default_mode_is_http : getTransportMode ∅ = http.
Proof. unfold getTransportMode. by rewrite lookup_empty. Qed.

End ExampleRuns.

(** * Facts on sessions with generated identifiers *)
Module SessionFacts.
Import Transport TransportFacts Sessions.

Lemma map_set_absent (k : string) (v : TransportRef) (m : Registry) :
  map_has k m = false → map_set k v m = (m ++ [(k, v)])%list.
Proof.
  induction m as [|[k' v'] m IH]; simpl; [done|].
  case_decide; [done|]. intros Hm. by rewrite IH.
Qed.

Lemma map_delete_sublist (k : string) (m : Registry) :
  map_delete k m `sublist_of` m.
Proof.
  induction m as [|[k' v'] m IH]; simpl; [done|].
  case_decide; [by apply sublist_cons|by apply sublist_skip].
Qed.

Lemma onclose_sublist (t : TransportRef) (m : Registry) :
  onclose t m `sublist_of` m.
Proof.
  unfold onclose. destruct (find_id t m) as [id|]; [|done].
  destruct (truthy (Some id)); [apply map_delete_sublist|done].
Qed.

Lemma map_get_elem (k : string) (v : TransportRef) (m : Registry) :
  unique_ids m → (k, v) ∈ m → map_get k m = Some v.
Proof.
  unfold unique_ids.
  induction m as [|[k' v'] m IH]; csimpl; intros Hnd Hin.
  - by apply elem_of_nil in Hin.
  - apply NoDup_cons in Hnd as [Hk' Hnd].
    apply elem_of_cons in Hin as [[= -> ->]|Hin].
    + by rewrite decide_True.
    + rewrite decide_False; [by apply IH|].
      intros ->. apply Hk'. apply list_elem_of_fmap. by exists (k, v).
Qed.

Lemma fresh_transport (n : TransportRef) (m : Registry) :
  unique_ids m → refs_below n m → n ∉ m.*2.
Proof.
  intros Hu Hr ([k v] & -> & Hin)%list_elem_of_fmap. simpl in *.
  apply (map_get_elem _ _ _ Hu), Hr in Hin. lia.
Qed.

Lemma find_id_registered (t : TransportRef) (id : string) (m : Registry) :
  t ∉ m.*2 → find_id t (m ++ [(id, t)])%list = Some id.
Proof.
  induction m as [|[k v] m IH]; csimpl; intros Ht.
  - by rewrite decide_True.
  - apply not_elem_of_cons in Ht as [Hne Ht].
    rewrite decide_False by done. by apply IH.
Qed.

Lemma map_delete_registered (t : TransportRef) (id : string) (m : Registry) :
  map_has id m = false → map_delete id (m ++ [(id, t)])%list = m.
Proof.
  induction m as [|[k v] m IH]; simpl; intros Hid.
  - by rewrite decide_True.
  - case_decide; [done|]. by rewrite IH.
Qed.

(** A transport that closes right after its session was registered takes
    its entry out again, unless the identifier is the empty string. *)
Lemma onclose_registered (t : TransportRef) (id : string) (m : Registry) :
  t ∉ m.*2 → map_has id m = false →
  onclose t (m ++ [(id, t)])%list
  = if truthy (Some id) then m else (m ++ [(id, t)])%list.
Proof.
  intros Ht Hid. unfold onclose. rewrite find_id_registered by done.
  destruct (truthy (Some id)); [by apply map_delete_registered|done].
Qed.

Section Facts.
Variable randomUUID : nat → string.

Lemma registry_inv_sublist (n : nat) (ids : list string) (m m' : Registry) :
  m' `sublist_of` m →
  (∀ id, map_has id m = false → map_has id m' = false) →
  (∀ id t, map_get id m' = Some t → map_get id m = Some t) →
  registry_inv n ids m → registry_inv n ids m'.
Proof.
  intros Hsub Habs Hget (Hu & Hr & Hv & Hids). split_and!.
  - unfold unique_ids. eapply sublist_NoDup; [exact Hu|by apply fmap_sublist].
  - intros id t H. eapply Hr, Hget, H.
  - eapply sublist_NoDup; [exact Hv|by apply fmap_sublist].
  - intros id Hid. by apply Habs, Hids.
Qed.

Lemma registry_inv_delete (n : nat) (ids : list string) (k : string)
    (m : Registry) :
  registry_inv n ids m → registry_inv n ids (map_delete k m).
Proof.
  apply registry_inv_sublist.
  - apply map_delete_sublist.
  - intros id. apply map_has_delete_absent.
  - intros id t. apply map_get_delete.
Qed.

Lemma registry_inv_onclose (n : nat) (ids : list string) (t : TransportRef)
    (m : Registry) :
  registry_inv n ids m → registry_inv n ids (onclose t m).
Proof.
  unfold onclose. destruct (find_id t m) as [id|]; [|done].
  destruct (truthy (Some id)); [apply registry_inv_delete|done].
Qed.

Lemma registry_inv_mono (n n' : nat) (ids ids' : list string) (m : Registry) :
  (n ≤ n')%nat → ids ⊆ ids' → registry_inv n ids m → registry_inv n' ids' m.
Proof.
  intros Hn Hsub (Hu & Hr & Hv & Hids). split_and!; [done| |done|].
  - by eapply refs_below_mono.
  - intros id Hid. apply Hids. intros ?. by apply Hid, Hsub.
Qed.

Lemma registry_inv_register (n : nat) (ids : list string) (id : string)
    (m : Registry) :
  id ∉ ids → registry_inv n ids m →
  registry_inv (S n) (ids ++ [id]) (map_set id n m).
Proof.
  intros Hid (Hu & Hr & Hv & Hids).
  pose proof (fresh_transport n m Hu Hr) as Hn.
  split_and!.
  - by apply unique_ids_set.
  - apply refs_below_set; [lia|]. eapply refs_below_mono; [|done]. lia.
  - rewrite map_set_absent by by apply Hids.
    rewrite fmap_app. apply NoDup_app. split_and!; [done| |].
    + intros t Ht ->%list_elem_of_singleton. done.
    + apply NoDup_singleton.
  - intros id' Hid'. rewrite map_has_set.
    apply not_elem_of_app in Hid' as [Hid' Hne].
    rewrite (Hids id' Hid'). rewrite bool_decide_eq_false_2; [done|].
    intros ->. apply Hne. by apply list_elem_of_singleton.
Qed.

Lemma issued_next (s s' : State) (n : nat) :
  issued randomUUID (mkServer s' (S n))
  = (issued randomUUID (mkServer s n)
     ++ [sessionIdGenerator randomUUID n])%list.
Proof. unfold issued. simpl generated. by rewrite seq_S, fmap_app. Qed.

Lemma issued_same (s s' : State) (n : nat) :
  issued randomUUID (mkServer s' n) = issued randomUUID (mkServer s n).
Proof. reflexivity. Qed.

Lemma next_not_issued (g : Server) :
  Inj (=) (=) randomUUID →
  sessionIdGenerator randomUUID (generated g) ∉ issued randomUUID g.
Proof.
  intros Hinj (k & Hk & Hin)%list_elem_of_fmap.
  apply Hinj in Hk. subst k. apply elem_of_seq in Hin. lia.
Qed.

Lemma server_inv_step (g : Server) (e : SessionEvent) :
  Inj (=) (=) randomUUID →
  server_inv randomUUID g → server_inv randomUUID (serve_step randomUUID g e).
Proof.
  intros Hinj Hg. pose proof (next_not_issued g Hinj) as Hfresh.
  destruct g as [s n]. unfold server_inv in *. simpl in *.
  destruct e as [req p|t]; simpl.
  - rewrite mcpRoute_state. unfold httpHandler, generator_calls,
      plan_env, plan_callbacks. simpl.
    destruct (method req); simpl.
    + (* POST *)
      destruct (plan_connect_fails p); simpl.
      * rewrite Nat.add_0_r. eapply registry_inv_mono; [|done|done]. lia.
      * destruct (plan_initialises p); simpl.
        -- rewrite Nat.add_1_r, (issued_next s).
           pose proof (registry_inv_register _ _ _ _ Hfresh Hg) as Hreg.
           unfold fire_all. simpl.
           destruct (plan_closes p); simpl; [|done].
           by apply registry_inv_onclose.
        -- rewrite Nat.add_0_r. unfold fire_all.
           eapply registry_inv_mono with (n := nextRef s);
             [lia|done|].
           destruct (plan_closes p); simpl; [|done].
           by apply registry_inv_onclose.
    + (* GET *)
      rewrite Nat.add_0_r.
      destruct (negb _ || negb _); [done|].
      destruct (get_session _ _); simpl; [|done].
      unfold fire_all. destruct (plan_closes p); simpl; [|done].
      by apply registry_inv_onclose.
    + (* DELETE *)
      rewrite Nat.add_0_r.
      destruct (truthy _ && _); [|done].
      destruct (get_session _ _); simpl; [|done].
      assert (registry_inv (nextRef s) (issued randomUUID (mkServer s n))
                (fire_all n0 (if plan_closes p then [OnClose] else [])
                   (transports s))) as Hfire.
      { unfold fire_all. destruct (plan_closes p); simpl; [|done].
        by apply registry_inv_onclose. }
      destruct (plan_fails p); simpl; [done|].
      destruct (sessionHeader req); simpl; [|done].
      by apply registry_inv_delete.
    + by rewrite Nat.add_0_r.
  - case_decide; simpl; [|done]. by apply registry_inv_onclose.
Qed.

Lemma server_inv_run (tr : list SessionEvent) :
  Inj (=) (=) randomUUID → server_inv randomUUID (serve_run randomUUID tr).
Proof.
  intros Hinj. unfold serve_run.
  assert (server_inv randomUUID (mkServer init 0)) as Hinit.
  { split_and!; try apply NoDup_nil_2; by intros. }
  revert Hinit. generalize (mkServer init 0).
  induction tr as [|e tr IH]; intros g Hg; simpl; [done|].
  by apply IH, server_inv_step.
Qed.

Lemma serve_run_snoc (tr : list SessionEvent) (e : SessionEvent) :
  serve_run randomUUID (tr ++ [e])
  = serve_step randomUUID (serve_run randomUUID tr) e.
Proof. unfold serve_run. by rewrite foldl_app. Qed.

Lemma issued_NoDup (g : Server) :
  Inj (=) (=) randomUUID → NoDup (issued randomUUID g).
Proof. intros Hinj. apply (NoDup_fmap_2 _), NoDup_seq. Qed.

End Facts.

Lemma ex_randomUUID_inj : Inj (=) (=) SessionExamples.ex_randomUUID.
Proof.
  intros m n H. unfold SessionExamples.ex_randomUUID in H.
  by apply (inj (String.app "session-")), (inj pretty) in H.
Qed.

(** The handler does not look into the registry before it registers: were
    [crypto.randomUUID] to return the same value twice, the second POST
    would put its transport in the place of the first session's. *)
Lemma repeated_identifier_replaces_transport :
  transports
    (http (serve_run SessionExamples.ex_stuck_randomUUID
             [Handled (mkRequest POST None) SessionExamples.ex_initialising;
              Handled (mkRequest POST None) SessionExamples.ex_initialising]))
  = [("session-0", 1)].
Proof. reflexivity. Qed.

(** A transport that closes while its first request is handled leaves no
    entry behind. *)
Lemma session_closed_at_once :
  transports
    (http (serve_run SessionExamples.ex_randomUUID
             [Handled (mkRequest POST None)
                SessionExamples.ex_initialising_then_closing]))
  = [].
Proof. vm_compute. reflexivity. Qed.

End SessionFacts.

(** ** Claims on the HTTP binding *)
Module TransportClaims.
Import Transport TransportFacts Examples.
Import Sessions SessionFacts SessionExamples.

(** C1 (as amended): for every POST request, with or without a session
    header, whose new transport the server connects and on which the SDK
    initialises a session (it calls the [sessionIdGenerator] and hands the
    result to [onsessioninitialized]), and with [crypto.randomUUID] never
    returning the same value twice: the handler creates a new transport,
    one that no registry entry holds, and registers it under the freshly
    generated identifier, which differs from every identifier issued
    before and is not in the registry; the entry goes last and every other
    entry stays as it was, so no live session is displaced (if the
    transport closes while the same request is handled, its entry is taken
    out again, unless the identifier is the empty string); and afterwards
    the issued identifiers are pairwise distinct, no two registry entries
    share an identifier, no two share a transport, and every registered
    identifier is one the generator issued. *)
Theorem post_registers_fresh_session
    (randomUUID : nat → string) (tr : list SessionEvent)
    (req : Request) (p : SdkPlan) :
  Inj (=) (=) randomUUID →
  method req = POST →
  plan_connect_fails p = false →
  plan_initialises p = true →
  let g := serve_run randomUUID tr in
  let g' := serve_run randomUUID (tr ++ [Handled req p]) in
  let id := sessionIdGenerator randomUUID (generated g) in
  let t := nextRef (http g) in
  (t ∉ (transports (http g)).*2)
  ∧ (id ∉ issued randomUUID g)
  ∧ map_has id (transports (http g)) = false
  ∧ issued randomUUID g' = (issued randomUUID g ++ [id])%list
  ∧ transports (http g')
    = (if plan_closes p && truthy (Some id) then transports (http g)
       else transports (http g) ++ [(id, t)])%list
  ∧ NoDup (issued randomUUID g')
  ∧ NoDup (transports (http g')).*1
  ∧ NoDup (transports (http g')).*2
  ∧ ∀ id', map_has id' (transports (http g')) = true →
           id' ∈ issued randomUUID g'.
Proof.
  intros Hinj Hm Hc Hi g g' id t.
  pose proof (server_inv_run randomUUID tr Hinj) as (Hu & Hr & Hv & Hids).
  pose proof (server_inv_run randomUUID (tr ++ [Handled req p]) Hinj)
    as (Hu' & _ & Hv' & Hids').
  fold g in Hu, Hr, Hv, Hids. fold g' in Hu', Hv', Hids'.
  pose proof (next_not_issued randomUUID g Hinj) as Hfresh. fold id in Hfresh.
  pose proof (fresh_transport _ _ Hu Hr) as Ht. fold t in Ht.
  pose proof (Hids id Hfresh) as Hid.
  assert (g' = serve_step randomUUID g (Handled req p)) as Hg'
    by apply serve_run_snoc.
  split_and!; try done.
  - rewrite Hg'. unfold serve_step, generator_calls.
    rewrite Hm, Hc, Hi. simpl. rewrite Nat.add_1_r.
    destruct g as [s n]. apply (issued_next randomUUID s).
  - rewrite Hg'. simpl. rewrite mcpRoute_state.
    unfold httpHandler, plan_env, plan_callbacks. simpl.
    rewrite Hm, Hc, Hi. simpl. fold id t.
    unfold onsessioninitialized. rewrite map_set_absent by done.
    destruct (plan_closes p); simpl; [|done].
    by apply onclose_registered.
  - by apply issued_NoDup.
  - intros id' Hhas. destruct (decide (id' ∈ issued randomUUID g')); [done|].
    rewrite Hids' in Hhas by done. discriminate Hhas.
Qed.

Lemma post_registers_fresh_session_witness :
  transports
    (http (serve_run ex_randomUUID
             ([Handled ex_post ex_initialising]
              ++ [Handled ex_post ex_initialising])))
  = [("session-0", 0); ("session-1", 1)].
Proof.
  exact (proj1 (proj2 (proj2 (proj2 (proj2
           (post_registers_fresh_session
              ex_randomUUID [Handled ex_post ex_initialising]
              ex_post ex_initialising
              ex_randomUUID_inj eq_refl eq_refl eq_refl)))))).
Defined.

(** C1 as stated fails: a POST without session header on which the SDK
    transport answers without initialising a session (it never calls
    [onsessioninitialized]) registers nothing. *)
Lemma post_without_initialisation_registers_nothing :
  mcpRoute ex_post (ex_answers 400) init = (mkState [] 1, Sent 400 None, [])
  ∧ ∀ id, map_get id
            (transports (mcpRoute ex_post (ex_answers 400) init).1.1) = None.
Proof. split; [reflexivity|]. intros id. reflexivity. Qed.

(** C2: a GET whose session identifier was never issued in the run, or was
    closed by a completed DELETE and not issued again, is answered 400
    "Invalid or missing session ID"; the handler state, hence the registry
    and every live session, is unchanged. *)
Theorem get_unknown_session_rejected
    (tr : list Event) (id : string) (env : Env) :
  never_issued id tr ∨ closed_in id tr →
  mcpRoute (mkRequest GET (Some id)) env (run tr init)
  = (run tr init, invalid_session, []).
Proof. intros H. by apply get_rejected, unknown_after_run. Qed.

Lemma get_unknown_session_rejected_witness :
  mcpRoute (mkRequest GET (Some "a")) (ex_answers 200)
    (run [ex_open "a"; ex_close "a"] init)
  = (run [ex_open "a"; ex_close "a"] init, invalid_session, []).
Proof.
  apply (get_unknown_session_rejected
           [ex_open "a"; ex_close "a"] "a" (ex_answers 200)).
  right. exists [ex_open "a"], ex_closes, [].
  split_and!; [reflexivity|reflexivity|].
  intros e He. by apply elem_of_nil in He.
Defined.

(** C3 (as amended): for every DELETE request carrying a known live,
    non-empty session identifier whose transport call completes (its
    [handleRequest] promise does not reject), the session is removed from
    the registry; any later GET or DELETE carrying that identifier, as
    long as the identifier is not issued again, is answered 400: a second
    close fails, it does not succeed idempotently. *)
Theorem delete_closes_session
    (s : State) (id : string) (env env' : Env) (tr : list Event) :
  id ≠ "" →
  map_has id (transports s) = true →
  rejects (sdk env) = false →
  never_issued id tr →
  let closing := mcpRoute (mkRequest DELETE (Some id)) env s in
  let s' := run tr closing.1.1 in
  closing.1.2 = sdk_response (sdk env)
  ∧ map_has id (transports closing.1.1) = false
  ∧ mcpRoute (mkRequest GET (Some id)) env' s' = (s', invalid_session, [])
  ∧ mcpRoute (mkRequest DELETE (Some id)) env' s' = (s', invalid_session, []).
Proof.
  intros Hid Hhas Hrej Htr closing s'.
  assert (map_has id (transports closing.1.1) = false) as Hgone.
  { unfold closing. rewrite mcpRoute_state. by apply delete_removes. }
  assert (map_has id (transports s') = false) as Hs'
    by by apply absent_run.
  split_and!; [|done|by apply get_rejected; right
               |by apply delete_rejected; right].
  unfold closing, mcpRoute, httpHandler. simpl.
  rewrite bool_decide_eq_false_2 by done. simpl. rewrite Hhas.
  apply map_get_has in Hhas as [t ->]. by rewrite Hrej.
Qed.

Lemma delete_closes_session_witness :
  map_has "a"
    (transports
       (mcpRoute (mkRequest DELETE (Some "a")) ex_closes
          (run [ex_open "a"; ex_open "b"] init)).1.1) = false
  ∧ mcpRoute (mkRequest DELETE (Some "a")) ex_closes
      (run [ex_open "c"]
         (mcpRoute (mkRequest DELETE (Some "a")) ex_closes
            (run [ex_open "a"; ex_open "b"] init)).1.1)
    = (mkState [("b", 1); ("c", 2)] 3, invalid_session, []).
Proof.
  assert (never_issued "a" [ex_open "c"]) as Hn.
  { intros e ->%list_elem_of_singleton. simpl.
    intros H%list_elem_of_singleton. discriminate H. }
  pose proof (delete_closes_session
                (run [ex_open "a"; ex_open "b"] init) "a"
                ex_closes ex_closes [ex_open "c"]
                ltac:(discriminate) eq_refl eq_refl Hn) as (_ & H1 & _ & H2).
  split; [exact H1|exact H2].
Defined.

(** C3 as stated fails: when the call to the transport of a live session
    rejects before the transport has closed, [transports.delete] is not
    reached and the session stays registered (the route answers 500). *)
Lemma delete_rejecting_transport_keeps_session :
  transports (run [ex_open "a"] init) = [("a", 0)]
  ∧ mcpRoute (mkRequest DELETE (Some "a")) ex_fails (run [ex_open "a"] init)
    = (mkState [("a", 0)] 1, internal_error, ["MCP handler error:"]).
Proof. split; reflexivity. Qed.

(** C7 (as amended): whenever the promise of the transport handler
    rejects, the binding catches the rejection and logs it; it answers 500
    "Internal server error" when no response headers were sent yet, and
    leaves the response the transport had started as it is otherwise. *)
Theorem route_catches_handler_fault
    (req : Request) (env : Env) (s s' : State) (res : Response) :
  httpHandler req env s = (s', res, Rejected) →
  mcpRoute req env s
  = (s', if headersSent res then res else internal_error,
     ["MCP handler error:"]).
Proof.
  intros H. unfold mcpRoute. rewrite H. by destruct (headersSent res).
Qed.

Lemma route_catches_handler_fault_witness :
  mcpRoute ex_post ex_fails init
  = (mkState [] 1, internal_error, ["MCP handler error:"]).
Proof.
  exact (route_catches_handler_fault ex_post ex_fails init
           (mkState [] 1) NotSent eq_refl).
Defined.

(** C7 as stated fails: when the transport has already sent the response
    headers (status 200, an event stream just opened) and then rejects,
    the binding sends no 500. *)
Lemma fault_after_headers_sent_is_not_a_500 :
  httpHandler ex_post (mkEnv false (mkSdkRun [] (Some 200) true)) init
  = (mkState [] 1, Sent 200 None, Rejected)
  ∧ (mcpRoute ex_post (mkEnv false (mkSdkRun [] (Some 200) true)) init).1.2
    = Sent 200 None.
Proof. split; reflexivity. Qed.

End TransportClaims.


(** ** Claims on the tool dispatcher *)
Module DispatchClaims.
Import Dispatch DispatchFacts MediaFacts Examples.

Section Claims.
Context {Num Buffer Payload : Type}.
Variable num_truthy : Num → bool.
Variable toFixed : nat → Num → string.
Variable times100 : Num → Num.
Variable readFileSync : @JValue Num Buffer → @Exc Num Buffer Buffer.
Variable render :
  Tool → list (string * @JValue Num Buffer) → Payload → @Exc Num Buffer string.

Local Abbreviation callTool :=
  (callTool num_truthy toFixed times100 readFileSync render).
Local Abbreviation serve :=
  (serve num_truthy toFixed times100 readFileSync render).
Local Abbreviation prepare := (prepare num_truthy readFileSync).
Local Abbreviation invoke := (invoke toFixed times100 render).


(** C5: an invocation whose name is none of the dispatcher's cases returns
    the error result "Unknown tool: <name>" and calls nothing; no exception
    leaves the handler, and the requests of the session before and after it
    are answered as they would be without it. *)
Theorem unknown_tool_is_reported
    (client : Client) (params : CallToolParams)
    (before after : list (Client * CallToolParams)) :
  name params ∉ tool_name <$> all_tools →
  callTool client params
  = ([], mkResult ("Unknown tool: " ++ name params) true)
  ∧ serve (before ++ (client, params) :: after)%list
    = (serve before
       ++ mkResult ("Unknown tool: " ++ name params) true :: serve after)%list.
Proof.
  intros Hn%switch_case_None.
  assert (callTool client params
          = ([], mkResult ("Unknown tool: " ++ name params) true)) as Hcall.
  { unfold Dispatch.callTool. by rewrite Hn. }
  split; [done|].
  rewrite serve_app. f_equal. unfold Dispatch.serve at 1.
  rewrite fmap_cons. simpl. by rewrite Hcall.
Qed.

(** C6: when the client call of a tool invocation throws, the handler
    catches it and returns an error-flagged result whose text is "Error: "
    followed by the message of the thrown error ("Unknown error" for a
    thrown value that is not an [Error]); the requests of the session
    before and after it are answered as they would be without it. *)
Theorem client_failure_is_caught
    (client : Client) (params : CallToolParams) (t : Tool) (c : Call)
    (e : Thrown) (before after : list (Client * CallToolParams)) :
  switch_case (name params) = Some t →
  prepare t (default [] (arguments params)) = Return c →
  client_throws client t c e →
  callTool client params
  = ([c], mkResult ("Error: " ++ catch_message e) true)
  ∧ (∀ message, e = ErrorObject message →
       text (callTool client params).2 = "Error: " ++ message)
  ∧ serve (before ++ (client, params) :: after)%list
    = (serve before
       ++ mkResult ("Error: " ++ catch_message e) true :: serve after)%list.
Proof.
  intros Ht Hc He.
  assert (callTool client params
          = ([c], mkResult ("Error: " ++ catch_message e) true)) as Hcall.
  { rewrite (callTool_known _ _ _ _ _ _ _ t Ht), Hc.
    by rewrite (invoke_throws _ _ _ _ _ _ _ _ He). }
  split_and!; [done| |].
  - intros message ->. by rewrite Hcall.
  - rewrite serve_app. f_equal. unfold Dispatch.serve at 1.
    rewrite fmap_cons. simpl. by rewrite Hcall.
Qed.


End Claims.



Lemma unknown_tool_is_reported_witness :
  ex_callTool ex_client (mkParams "detect_everything" None)
  = ([], mkResult "Unknown tool: detect_everything" true).
Proof.
  apply (unknown_tool_is_reported
           ex_truthy ex_toFixed ex_times100 ex_readFileSync ex_render
           ex_client (mkParams "detect_everything" None) [] []).
  apply switch_case_None. reflexivity.
Defined.

Lemma client_failure_is_caught_witness :
  ex_callTool ex_failing_client
    (mkParams "detect_unsafe" (Some [("content", JStr "some text")]))
  = ([mkCall detect_unsafe
        [JObj [("content", JStr "some text"); ("context", JUndefined)]]],
     mkResult "Error: Rate limit exceeded" true).
Proof.
  apply (client_failure_is_caught
           ex_truthy ex_toFixed ex_times100 ex_readFileSync ex_render
           ex_failing_client
           (mkParams "detect_unsafe" (Some [("content", JStr "some text")]))
           detect_unsafe _ (ErrorObject "Rate limit exceeded") [] []);
    reflexivity.
Defined.


End DispatchClaims.

(** ** Claim on the start-up *)
Module StartupClaims.
Import Startup.

Lemma createServer_with_key (env : gmap string string) (k : string) :
  env !! "TUTELIQ_API_KEY" = Some k → k ≠ "" →
  createServer env
  = [NewClient k; NewServer "tuteliq-mcp" "3.0.0";
     RegisterTools "detection"; RegisterTools "fraud"; RegisterTools "media";
     RegisterTools "analysis"; RegisterTools "admin"].
Proof.
  intros Hk Hne. unfold createServer. rewrite Hk. simpl.
  by rewrite bool_decide_eq_false_2.
Qed.

Lemma createServer_without_key (env : gmap string string) :
  env !! "TUTELIQ_API_KEY" = None → createServer env = api_key_required.
Proof. intros Hk. unfold createServer. by rewrite Hk. Qed.

(** C8: when [TUTELIQ_API_KEY] is absent from the environment, each entry
    point (the v2 [index.ts], the v3 [index.ts] in stdio mode, [server.ts])
    logs the error and exits with code 1 before it creates a client or a
    server and before it connects or listens; when the variable holds a
    (non-empty) credential, the check passes, the client is created with
    it and the entry point goes on to serve, with no exit. *)
Theorem credential_check_at_startup (env : gmap string string) :
  (env !! "TUTELIQ_API_KEY" = None →
     index_v2 env
     = [ConsoleError "Error: TUTELIQ_API_KEY environment variable is required";
        ProcessExit 1]
     ∧ createServer env = index_v2 env
     ∧ server_ts env = index_v2 env
     ∧ (getTransportMode env = stdio → index_v3 env = index_v2 env)
     ∧ Forall (λ a, serving a = false) (index_v2 env))
  ∧ (∀ k, env !! "TUTELIQ_API_KEY" = Some k → k ≠ "" →
       index_v2 env
       = [NewClient k; NewServer "tuteliq-mcp" "2.1.0"; SetRequestHandlers;
          ConnectStdio]
       ∧ (getTransportMode env = stdio →
            index_v3 env = (createServer env ++ [ConnectStdio])%list)
       ∧ (∃ port,
            server_ts env
            = (index_v3 env ++ createServer env ++ [Listen port])%list)
       ∧ head (createServer env) = Some (NewClient k)
       ∧ Exists (λ a, serving a = true) (server_ts env)
       ∧ ∀ code, ProcessExit code ∉ server_ts env).
Proof.
  split.
  - intros Hk.
    assert (index_v2 env = api_key_required) as Hv2.
    { unfold index_v2. by rewrite Hk. }
    pose proof (createServer_without_key env Hk) as Hcs.
    assert (index_v3 env = api_key_required ∨ index_v3 env = []) as Hv3.
    { unfold index_v3. destruct (getTransportMode env); [by right|left].
      by rewrite Hcs. }
    rewrite Hv2. split_and!; [done|done| | |].
    + unfold server_ts. rewrite Hcs. by destruct Hv3 as [-> | ->].
    + intros Hmode. unfold index_v3. by rewrite Hmode, Hcs.
    + by repeat constructor.
  - intros k Hk Hne.
    pose proof (createServer_with_key env k Hk Hne) as Hcs.
    assert (index_v3 env = (createServer env ++ [ConnectStdio])%list
            ∨ index_v3 env = []) as Hv3.
    { unfold index_v3. destruct (getTransportMode env); [by right|left].
      by rewrite Hcs. }
    split_and!.
    + unfold index_v2. rewrite Hk. simpl.
      by rewrite bool_decide_eq_false_2.
    + intros Hmode. unfold index_v3. by rewrite Hmode, Hcs.
    + eexists. unfold server_ts.
      destruct Hv3 as [-> | ->]; rewrite Hcs; reflexivity.
    + by rewrite Hcs.
    + unfold server_ts. apply Exists_exists.
      exists (Listen (if truthy (env !! "PORT")
                      then default "" (env !! "PORT") else "3001")).
      split; [|done].
      destruct Hv3 as [-> | ->]; rewrite Hcs; unfold and_then; simpl;
        rewrite !elem_of_cons; tauto.
    + intros code. unfold server_ts.
      destruct Hv3 as [-> | ->]; rewrite Hcs; unfold and_then; simpl;
        intros H;
        repeat (apply elem_of_cons in H as [H|H]; [discriminate H|]);
        by apply elem_of_nil in H.
Qed.

Lemma credential_check_at_startup_witness :
  server_ts ∅
  = [ConsoleError "Error: TUTELIQ_API_KEY environment variable is required";
     ProcessExit 1]
  ∧ index_v2 {["TUTELIQ_API_KEY" := "sk-test"]}
    = [NewClient "sk-test"; NewServer "tuteliq-mcp" "2.1.0";
       SetRequestHandlers; ConnectStdio].
Proof.
  split.
  - destruct (proj1 (credential_check_at_startup ∅) (lookup_empty _))
      as (H1 & _ & H3 & _ & _).
    rewrite H3. exact H1.
  - apply (proj2 (credential_check_at_startup
                    {["TUTELIQ_API_KEY" := "sk-test"]}) "sk-test");
      [apply lookup_singleton_eq|discriminate].
Defined.

End StartupClaims.
